(** * The translate service of MRS.i18n (src/translate.js)

    A shallow embedding of the [translate] service: the resource table,
    the default and the selected language, the loading of resource files
    through the injected reader, and the lookup of terms with fallback to
    the default language and substitution of [{0}], [{1}], ... tokens.

    Conventions of the embedding.
    - A JavaScript value that can sit in a resource file or be handed back
      by [getTerm] is a [Value]: [undefined], [null], a number (kept to
      the naturals, the service never computes with one), a string, or an
      object parsed from JSON, that is a map from member names to values.
    - A property read [obj[name]] answers with the member of an object and
      with the length or a character of a string. It does not answer with
      what values inherit from the prototypes of the runtime
      ([constructor], [toString], the methods of strings, ...). The
      properties that rest on a read finding nothing are stated for the
      reads where the runtime has nothing to add: a nested object without
      a member of the name, the name not being one that objects inherit
      ([object_inherits], [misses]).
    - [resources] is an array that the service uses as a map from language
      codes to trees, and is modelled as that map. The array and the map
      agree on every code that is not the name of a property the runtime
      defines on arrays ([length], [__proto__], [constructor], [push],
      ...); no such name has a hyphen. The properties that store a tree,
      remove one, or read a language that is not loaded are stated for
      codes with a hyphen ([hyphenated]), the form the source documents
      ([pt-br], [en-us]).
    - A string is its sequence of code units, kept to those below 256.
    - [undefined] where the source expects a string is [None].
    - The reader [window.tlantic.system.readJSONFile], [$log] and
      [$timeout] are injected: a request to the reader stays in flight
      until the reader answers it, [$log] is a list of diagnostics, and
      [$timeout] is a queue of callbacks that run on later turns. *)

From Stdlib Require Import String Ascii List Decimal DecimalString Lia.
From stdpp Require Import base option strings gmap.

Local Open Scope string_scope.
Local Open Scope list_scope.

(** ** JavaScript values and the built-in string operations *)

Module Js.

#[local] Set Warnings "-register-all".

Inductive Value : Type :=
| VUndefined
| VNull
| VNumber (n : N)
| VString (s : string)
| VObject (members : gmap string Value).

(** Outcome of a computation that may throw. *)
Inductive Fault : Type :=
| TypeError (message : string).

Inductive Outcome (A : Type) : Type :=
| Ok (a : A)
| Throw (f : Fault).
Arguments Ok {A} a.
Arguments Throw {A} f.

(** ToBoolean. *)
Definition truthy (v : Value) : bool :=
  match v with
  | VUndefined | VNull => false
  | VNumber n => negb (N.eqb n 0)
  | VString s => negb (String.eqb s "")
  | VObject _ => true
  end.

(** ToBoolean of a string that may be [undefined]. *)
Definition truthy_str (s : option string) : bool :=
  match s with
  | Some s => negb (String.eqb s "")
  | None => false
  end.

(** ToString of a string that may be [undefined], as done by [+] and by a
    computed property name. *)
Definition to_string (s : option string) : string :=
  match s with
  | Some s => s
  | None => "undefined"
  end.

(** ToString of a non-negative integer. *)
Definition number_to_string (n : nat) : string :=
  NilEmpty.string_of_uint (Nat.to_uint n).

(** The number that a canonical index names: ["0"], or decimal digits
    that do not start with ["0"]. *)
Definition digit_value (c : ascii) : option N :=
  let n := N_of_ascii c in
  if (48 <=? n)%N && (n <=? 57)%N then Some (n - 48)%N else None.

Fixpoint digits_value (acc : N) (s : string) : option N :=
  match s with
  | EmptyString => Some acc
  | String c rest =>
      match digit_value c with
      | Some d => digits_value (10 * acc + d)%N rest
      | None => None
      end
  end.

Definition canonical_index (name : string) : option N :=
  match name with
  | EmptyString => None
  | String c rest =>
      if Ascii.eqb c "0"%char
      then (if String.eqb rest "" then Some 0%N else None)
      else digits_value 0 name
  end.

(** The own properties of a string: its [length] and its characters. *)
Definition string_prop (s name : string) : Value :=
  if String.eqb name "length" then VNumber (N.of_nat (String.length s))
  else
    match canonical_index name with
    | Some i =>
        if (i <? N.of_nat (String.length s))%N then
          match String.get (N.to_nat i) s with
          | Some c => VString (String c EmptyString)
          | None => VUndefined
          end
        else VUndefined
    | None => VUndefined
    end.

(** [obj[name]]: reading a property of [null] or [undefined] throws; an
    object parsed from JSON answers with its member of that name, a
    string with its length or a character. The members that values
    inherit from the prototypes of the runtime are not part of the model:
    the properties below that rest on a read finding nothing say which
    names they hold for. *)
Definition get_prop (obj : Value) (name : string) : Outcome Value :=
  match obj with
  | VUndefined => Throw (TypeError "Cannot read properties of undefined")
  | VNull => Throw (TypeError "Cannot read properties of null")
  | VObject members =>
      match members !! name with
      | Some v => Ok v
      | None => Ok VUndefined
      end
  | VString s => Ok (string_prop s name)
  | VNumber _ => Ok VUndefined
  end.

(** A language code such as [pt-br] or [en-us]. No property that the
    runtime defines on an array, its own [length] and the members of
    [Array.prototype] and [Object.prototype], has a hyphen in its name:
    on such codes the array [resources] is the map it is used as. *)
Fixpoint hyphenated (code : string) : bool :=
  match code with
  | EmptyString => false
  | String c rest => Ascii.eqb c "-"%char || hyphenated rest
  end.

(** The same for a language variable, which may be [undefined]: the
    array has no property of the name ["undefined"] either. *)
Definition plain_language (language : option string) : bool :=
  match language with
  | Some code => hyphenated code
  | None => true
  end.

(** The names that every object inherits from [Object.prototype], the
    ones of older engines included. *)
Definition object_inherits (name : string) : bool :=
  match name with
  | String "_" (String "_" _) => true
  | _ =>
      existsb (String.eqb name)
        ["constructor"; "hasOwnProperty"; "isPrototypeOf"; "propertyIsEnumerable";
         "toLocaleString"; "toString"; "valueOf"; "toSource"; "watch"; "unwatch";
         "eval"]
  end.

(** [s.split(".")]. *)
Fixpoint split_dot (s : string) : list string :=
  match s with
  | EmptyString => [EmptyString]
  | String c rest =>
      if Ascii.eqb c "."%char then EmptyString :: split_dot rest
      else match split_dot rest with
           | seg :: segs => String c seg :: segs
           | [] => [String c EmptyString]
           end
  end.

(** [strip_prefix p s] is what follows [p] when [s] starts with [p]. *)
Fixpoint strip_prefix (p s : string) : option string :=
  match p with
  | EmptyString => Some s
  | String a p' =>
      match s with
      | EmptyString => None
      | String b s' => if Ascii.eqb a b then strip_prefix p' s' else None
      end
  end.

(** The first occurrence of [pat] in [s], as the text before it and the
    text after it (the position that [indexOf] finds). *)
Fixpoint find_first (pat s : string) : option (string * string) :=
  match strip_prefix pat s with
  | Some after => Some (EmptyString, after)
  | None =>
      match s with
      | EmptyString => None
      | String c s' =>
          match find_first pat s' with
          | Some (before, after) => Some (String c before, after)
          | None => None
          end
      end
  end.

(** GetSubstitution for a match of a string pattern (no captures): in the
    replacement text [$$] stands for [$], [$&] for the matched text,
    [$`] for the text before the match and [$'] for the text after it;
    any other [$] is literal. *)
Fixpoint get_substitution (matched before after template : string) : string :=
  match template with
  | EmptyString => EmptyString
  | String c rest =>
      if Ascii.eqb c "$"%char then
        match rest with
        | EmptyString => String c EmptyString
        | String d rest' =>
            if Ascii.eqb d "$"%char then
              String "$"%char (get_substitution matched before after rest')
            else if Ascii.eqb d "&"%char then
              matched ++ get_substitution matched before after rest'
            else if Ascii.eqb d "`"%char then
              before ++ get_substitution matched before after rest'
            else if Ascii.eqb d "'"%char then
              after ++ get_substitution matched before after rest'
            else String c (get_substitution matched before after rest)
        end
      else String c (get_substitution matched before after rest)
  end.

(** [s.replace(pat, replacement)] with a string pattern and a string
    replacement: only the first occurrence is replaced. *)
Definition string_replace (s pat replacement : string) : string :=
  match find_first pat s with
  | Some (before, after) =>
      before ++ get_substitution pat before after replacement ++ after
  | None => s
  end.

(** A replacement text without [$] stands for itself. *)
Fixpoint plain (template : string) : bool :=
  match template with
  | EmptyString => true
  | String c rest => negb (Ascii.eqb c "$"%char) && plain rest
  end.

(** The first occurrence of [token] in [s] gives way to [arg]. *)
Definition replace_token (s token arg : string) : string :=
  match find_first token s with
  | Some (before, after) => before ++ arg ++ after
  | None => s
  end.

(** [v.replace(pat, replacement)]: only a string has the method. *)
Definition call_replace (v : Value) (pat replacement : string) : Outcome Value :=
  match v with
  | VString s => Ok (VString (string_replace s pat replacement))
  | _ => Throw (TypeError "translation.replace is not a function")
  end.

End Js.

Import Js.

(** ** The service *)

Module Translate.

(** What [$log] receives. *)
Inductive Diagnostic : Type :=
| LogWarn (message : string)
| LogError (message : string).

(** A callback of the caller, named by a number; the parameter is [None]
    when the caller passes none. *)
Definition Callback : Type := nat.

(** A call of [readJSONFile] the reader has not answered yet: the file
    asked for and what the two handlers close over. *)
Record Request : Type := {
  req_file : string;
  req_language : string;
  req_callback : option Callback;
}.

(** The variables of the service closure ([basePath], [resources],
    [defaultLanguage], [selectedLanguage]) and the injected collaborators. *)
Record World : Type := {
  basePath : string;
  resources : gmap string Value;
  defaultLanguage : option string;
  selectedLanguage : option string;
  log : list Diagnostic;
  inflight : list Request;
  timers : list Callback;
  called : list Callback;
}.

(** The service when it is created. *)
Definition init : World := {|
  basePath := "";
  resources := ∅;
  defaultLanguage := None;
  selectedLanguage := None;
  log := [];
  inflight := [];
  timers := [];
  called := [];
|}.

Definition set_resources (r : gmap string Value) (w : World) : World :=
  {| basePath := basePath w; resources := r;
     defaultLanguage := defaultLanguage w; selectedLanguage := selectedLanguage w;
     log := log w; inflight := inflight w; timers := timers w; called := called w |}.

Definition set_defaultLanguage (l : option string) (w : World) : World :=
  {| basePath := basePath w; resources := resources w;
     defaultLanguage := l; selectedLanguage := selectedLanguage w;
     log := log w; inflight := inflight w; timers := timers w; called := called w |}.

Definition set_selectedLanguage (l : option string) (w : World) : World :=
  {| basePath := basePath w; resources := resources w;
     defaultLanguage := defaultLanguage w; selectedLanguage := l;
     log := log w; inflight := inflight w; timers := timers w; called := called w |}.

Definition set_log (d : list Diagnostic) (w : World) : World :=
  {| basePath := basePath w; resources := resources w;
     defaultLanguage := defaultLanguage w; selectedLanguage := selectedLanguage w;
     log := d; inflight := inflight w; timers := timers w; called := called w |}.

Definition set_inflight (q : list Request) (w : World) : World :=
  {| basePath := basePath w; resources := resources w;
     defaultLanguage := defaultLanguage w; selectedLanguage := selectedLanguage w;
     log := log w; inflight := q; timers := timers w; called := called w |}.

Definition set_timers (t : list Callback) (w : World) : World :=
  {| basePath := basePath w; resources := resources w;
     defaultLanguage := defaultLanguage w; selectedLanguage := selectedLanguage w;
     log := log w; inflight := inflight w; timers := t; called := called w |}.

Definition set_called (c : list Callback) (w : World) : World :=
  {| basePath := basePath w; resources := resources w;
     defaultLanguage := defaultLanguage w; selectedLanguage := selectedLanguage w;
     log := log w; inflight := inflight w; timers := timers w; called := c |}.

(** [$log.warn], [$log.error]. *)
Definition log_warn (message : string) (w : World) : World :=
  set_log (log w ++ [LogWarn message]) w.

Definition log_error (message : string) (w : World) : World :=
  set_log (log w ++ [LogError message]) w.

(** [if (callback) { $timeout(function () { callback(); }); }] *)
Definition schedule (callback : option Callback) (w : World) : World :=
  match callback with
  | Some c => set_timers (timers w ++ [c]) w
  | None => w
  end.

(** *** loadResources (function [translateLoadResources]) *)

Definition resource_file (base language : string) : string :=
  base ++ "resources." ++ language ++ ".json".

Definition loadResources (language : string) (callback : option Callback)
    (w : World) : World :=
  let resourceFile := resource_file (basePath w) language in
  set_inflight
    (inflight w ++ [{| req_file := resourceFile; req_language := language;
                       req_callback := callback |}]) w.

(** The success handler given to the reader. *)
Definition on_loaded (r : Request) (result : Value) (w : World) : World :=
  schedule (req_callback r)
    (set_resources (<[req_language r := result]> (resources w)) w).

(** The failure handler given to the reader. *)
Definition on_load_failed (r : Request) (w : World) : World :=
  log_error ("File [" ++ req_file r ++ "] was not found.") w.

(** *** setDefaultLanguage, setLanguage (functions
    [translateSetDefaultLanguage], [translateSetLanguage]; the
    specification calls the second one [setSelectedLanguage]) *)

Definition setDefaultLanguage (language : string) (callback : option Callback)
    (w : World) : World :=
  let w := set_defaultLanguage (Some language) w in
  let w := set_selectedLanguage (Some language) w in
  loadResources language callback w.

(** [!==] between a language variable and the [language] argument. *)
Definition differs (a b : option string) : bool :=
  negb (bool_decide (a = b)).

Definition setLanguage (language : string) (callback : option Callback)
    (w : World) : World :=
  let w :=
    if differs (defaultLanguage w) (selectedLanguage w)
       && differs (defaultLanguage w) (Some language)
       && differs (selectedLanguage w) (Some language)
    then set_resources (delete (to_string (selectedLanguage w)) (resources w)) w
    else w in
  if differs (defaultLanguage w) (Some language)
     && differs (selectedLanguage w) (Some language)
  then
    let w := set_selectedLanguage (Some language) w in
    loadResources language callback w
  else schedule callback w.

Definition getDefaultLanguage (w : World) : option string := defaultLanguage w.
Definition getSelectedLanguage (w : World) : option string := selectedLanguage w.

(** *** getTerm (function [translateGetTerm])

    [getTerm] reads the variables of the service, writes to [$log] and may
    throw: it runs in a monad over [World] whose results are [Outcome]s. *)

Definition M (A : Type) : Type := World -> Outcome A * World.

Definition ret {A} (a : A) : M A := fun w => (Ok a, w).

Definition bind {A B} (m : M A) (k : A -> M B) : M B :=
  fun w =>
    match m w with
    | (Ok a, w') => k a w'
    | (Throw f, w') => (Throw f, w')
    end.

Notation "'do' x <- m ; k" := (bind m (fun x => k))
  (at level 10, x pattern, m at level 100, k at level 200).
Notation "'exec' m ; k" := (bind m (fun _ => k))
  (at level 10, m at level 100, k at level 200).

Definition gets {A} (f : World -> A) : M A := fun w => (Ok (f w), w).
Definition modify (f : World -> World) : M unit := fun w => (Ok tt, f w).
Definition lift {A} (o : Outcome A) : M A := fun w => (o, w).
Definition when (b : bool) (m : M unit) : M unit := if b then m else ret tt.

(** The loop of [getDescendantProp] over the segments still in [arr]:
    [while (arr.length && (obj = obj[arr.shift()]));  return obj;] *)
Fixpoint descend (obj : Value) (arr : list string) : Outcome Value :=
  match arr with
  | [] => Ok obj
  | name :: arr' =>
      match get_prop obj name with
      | Ok obj' => if truthy obj' then descend obj' arr' else Ok obj'
      | Throw f => Throw f
      end
  end.

Definition getDescendantProp (obj : Value) (desc : string) : Outcome Value :=
  descend obj (split_dot desc).

(** [if (resources[language] && (translation = getDescendantProp(resources[language], term)))
       translationFound = true;]
    run with the current [translation]; gives the new [translation] and
    whether the condition held. The name of the property read is
    [language] turned into a string. *)
Definition try_language (language : option string) (term : string)
    (translation : Value) : M (Value * bool) :=
  do res <- gets resources;
  match res !! to_string language with
  | Some tree =>
      if truthy tree then
        do found <- lift (getDescendantProp tree term);
        ret (found, truthy found)
      else ret (translation, false)
  | None => ret (translation, false)
  end.

Definition not_found_message (language : option string) (term : string) : string :=
  "Translation not found for language [" ++ to_string language
    ++ "] and term [" ++ term ++ "].".

(** The block under the comment [// fallback to the default language],
    entered when [translationFound] is false; [language] is the language
    just tried and [translation] what the first lookup left. *)
Definition fallback (language : option string) (term : string)
    (translation : Value) : M Value :=
  do selected <- gets selectedLanguage;
  do default <- gets defaultLanguage;
  exec when (differs selected language && differs default language)
         (modify (log_warn (not_found_message language term)));
  let language := default in
  do (translation, translationFound) <- try_language language term translation;
  exec when (negb translationFound)
         (modify (log_warn (not_found_message language term)));
  ret translation.

(** The [else] branch of [if (!language)]: the lookup in [language], then
    the fallback. *)
Definition resolve (language : option string) (term : string) : M Value :=
  do (translation, translationFound) <- try_language language term VNull;
  if translationFound then ret translation
  else fallback language term translation.

(** The loop over [arguments[2]], [arguments[3]], ...; [count] is the
    number of the token. *)
Fixpoint substitute (translation : Value) (count : nat) (args : list string)
    : Outcome Value :=
  match args with
  | [] => Ok translation
  | arg :: args' =>
      match call_replace translation ("{" ++ number_to_string count ++ "}") arg with
      | Ok translation' => substitute translation' (S count) args'
      | Throw f => Throw f
      end
  end.

(** [if (translation && arguments.length > 2) { for ... }] *)
Definition apply_arguments (translation : Value) (args : list string) : M Value :=
  if truthy translation && negb (bool_decide (args = [])) then
    lift (substitute translation 0 args)
  else ret translation.

(** [if (!language) { language = selectedLanguage; }] *)
Definition effective_language (language : option string) (w : World) : option string :=
  if negb (truthy_str language) then selectedLanguage w else language.

(** [getTerm(term, language, ...args)]: [term] and [language] are [None]
    when [undefined]; [args] are the arguments after the first two. *)
Definition getTerm (term : option string) (language : option string)
    (args : list string) : M Value :=
  if truthy_str term then
    let term := to_string term in
    do language <- gets (effective_language language);
    do translation <-
      (if negb (truthy_str language) then
         exec modify (log_error
                        "There must be a default language defined for the application.");
         ret VNull
       else resolve language term);
    apply_arguments translation args
  else
    exec modify (log_warn "Term is required.");
    ret VNull.

(** The [i18n] filter. *)
Definition i18nFilter (term language : option string) : M Value :=
  getTerm term language [].

(** *** Turns of the event loop

    Between two calls of the host the reader may answer one of the
    requests in flight and a timer may fire. *)
Inductive Turn : Type :=
| ReaderSucceeds (i : nat) (result : Value)
| ReaderFails (i : nat)
| TimerFires.

(** The reader answers the [i]-th request in flight. *)
Definition answer (i : nat) (handler : Request -> World -> World) (w : World) : World :=
  match inflight w !! i with
  | Some r => handler r (set_inflight (take i (inflight w) ++ drop (S i) (inflight w)) w)
  | None => w
  end.

(** The oldest timer runs its callback. *)
Definition fire (w : World) : World :=
  match timers w with
  | c :: rest => set_called (called w ++ [c]) (set_timers rest w)
  | [] => w
  end.

Definition step (t : Turn) (w : World) : World :=
  match t with
  | ReaderSucceeds i result => answer i (fun r => on_loaded r result) w
  | ReaderFails i => answer i on_load_failed w
  | TimerFires => fire w
  end.

Definition run (turns : list Turn) (w : World) : World :=
  fold_left (fun w t => step t w) turns w.

(** All the timers now queued fire. *)
Definition flush (w : World) : World :=
  Nat.iter (length (timers w)) fire w.

(** What the reader answers to a request. *)
Inductive Answer : Type :=
| Loaded (result : Value)
| NotFound.

(** The reader answers the oldest request in flight, then the timers
    fire: a call whose load is over before the host calls again. *)
Definition settle (a : Answer) (w : World) : World :=
  flush (step (match a with
               | Loaded result => ReaderSucceeds 0 result
               | NotFound => ReaderFails 0
               end) w).

(** The host sets [basePath]. *)
Definition set_basePath (base : string) (w : World) : World :=
  {| basePath := base; resources := resources w;
     defaultLanguage := defaultLanguage w; selectedLanguage := selectedLanguage w;
     log := log w; inflight := inflight w; timers := timers w; called := called w |}.

(** ** The term tree of the specification

    The value a dotted path addresses in a term tree: each segment names a
    member of the nested mapping reached so far. *)
Fixpoint tree_get (tree : Value) (path : list string) : option Value :=
  match path with
  | [] => Some tree
  | name :: path' =>
      match tree with
      | VObject members =>
          match members !! name with
          | Some v => tree_get v path'
          | None => None
          end
      | _ => None
      end
  end.

(** ** Sample resource files and sessions *)

(** [{"user": {"name": "Name"}, "greet": "Hi {0}, meet {1}"}] *)
Definition en_us_terms : Value :=
  VObject {[ "user" := VObject {[ "name" := VString "Name" ]};
             "greet" := VString "Hi {0}, meet {1}" ]}.

(** [{"greet": "Salut {0}"}] *)
Definition fr_fr_terms : Value :=
  VObject {[ "greet" := VString "Salut {0}" ]}.

(** [{"greet": "Hallo {0}"}] *)
Definition de_de_terms : Value :=
  VObject {[ "greet" := VString "Hallo {0}" ]}.

(** [setDefaultLanguage("en-us")], the file arrives. *)
Definition english_session : World :=
  settle (Loaded en_us_terms) (setDefaultLanguage "en-us" None init).

(** Then [setLanguage("fr-fr")], the file arrives. *)
Definition french_session : World :=
  settle (Loaded fr_fr_terms) (setLanguage "fr-fr" None english_session).


(** [{"greet": ""}] *)
Definition blank_terms : Value :=
  VObject {[ "greet" := VString "" ]}.

(** [setDefaultLanguage("en-us")], then [setLanguage("xx-xx")] whose file
    has an empty entry. *)
Definition blank_session : World :=
  settle (Loaded blank_terms) (setLanguage "xx-xx" None english_session).

(** [{"password": {"length": "Password length"}}] *)
Definition en_us_password : Value :=
  VObject {[ "password" := VObject {[ "length" := VString "Password length" ]} ]}.

(** [{"password": "Mot de passe"}] *)
Definition fr_fr_password : Value :=
  VObject {[ "password" := VString "Mot de passe" ]}.

(** [setDefaultLanguage("en-us")], [setLanguage("fr-fr")], both files
    arrive. *)
Definition password_session : World :=
  settle (Loaded fr_fr_password)
    (setLanguage "fr-fr" None
       (settle (Loaded en_us_password) (setDefaultLanguage "en-us" None init))).

(** A session that starts with an optional [setDefaultLanguage] and goes
    on with calls of [setLanguage], the load of each call being over
    before the next call. *)
Definition LoadCall : Type := string * option Callback * Answer.

Definition settled_setLanguage (w : World) (c : LoadCall) : World :=
  let '(language, callback, a) := c in
  settle a (setLanguage language callback w).

Definition settled_setDefaultLanguage (w : World) (c : LoadCall) : World :=
  let '(language, callback, a) := c in
  settle a (setDefaultLanguage language callback w).


Definition session (base : string) (first : option LoadCall)
    (calls : list LoadCall) : World :=
  let w := set_basePath base init in
  let w := match first with
           | Some c => settled_setDefaultLanguage w c
           | None => w
           end in
  fold_left settled_setLanguage calls w.



(** The tokens [{count}], [{count+1}], ... give way, one after the other,
    to the arguments. *)
Fixpoint replace_tokens (s : string) (count : nat) (args : list string) : string :=
  match args with
  | [] => s
  | arg :: args' =>
      replace_tokens
        (replace_token s ("{" ++ number_to_string count ++ "}") arg) (S count) args'
  end.

(** What the host and the event loop can do to the service. *)
Inductive Action : Type :=
| SetBasePath (base : string)
| SetDefaultLanguage (language : string) (callback : option Callback)
| SetLanguage (language : string) (callback : option Callback)
| GetTerm (term language : option string) (args : list string)
| Loop (t : Turn).

Definition act (w : World) (a : Action) : World :=
  match a with
  | SetBasePath base => set_basePath base w
  | SetDefaultLanguage language callback => setDefaultLanguage language callback w
  | SetLanguage language callback => setLanguage language callback w
  | GetTerm term language args => snd (getTerm term language args w)
  | Loop t => step t w
  end.

(** The service after a history of actions, in any order. *)
Definition history (actions : list Action) : World :=
  fold_left act actions init.

(** The key leaves the tree: on its way through nested objects it meets
    a falsy entry, or an object without a member of the next name, that
    name not being one every object inherits. *)
Fixpoint misses (tree : Value) (path : list string) : bool :=
  match path with
  | [] => false
  | name :: path' =>
      match tree with
      | VObject members =>
          match members !! name with
          | Some v => if truthy v then misses v path' else true
          | None => negb (object_inherits name)
          end
      | _ => false
      end
  end.


(** The first warning of the fallback block: written when the language
    tried is neither the selected nor the default language. *)
Definition override_warning (w : World) (language : option string) (term : string)
    : list Diagnostic :=
  if differs (selectedLanguage w) language && differs (defaultLanguage w) language
  then [LogWarn (not_found_message language term)]
  else [].

(** No character of [s] is an opening brace. *)
Fixpoint brace_free (s : string) : bool :=
  match s with
  | EmptyString => true
  | String c rest => negb (Ascii.eqb c "{"%char) && brace_free rest
  end.

(** ** Properties *)

(** *** The string operations *)

Lemma append_cons (c : ascii) (p r : string) :
  (String c p ++ r)%string = String c (p ++ r)%string.
Proof. reflexivity. Qed.

Lemma append_empty (r : string) : ("" ++ r)%string = r.
Proof. reflexivity. Qed.

Lemma strip_prefix_sound (p s r : string) :
  strip_prefix p s = Some r -> s = (p ++ r)%string.
Proof.
  revert s. induction p as [|a p IH]; intros s H; cbn in H.
  - now injection H as ->.
  - destruct s as [|b s]; [discriminate|].
    destruct (Ascii.eqb_spec a b) as [->|]; [|discriminate].
    rewrite append_cons. f_equal. now apply IH.
Qed.

Lemma strip_prefix_complete (p r : string) :
  strip_prefix p (p ++ r) = Some r.
Proof.
  induction p as [|a p IH]; [reflexivity|].
  rewrite append_cons. cbn. now rewrite Ascii.eqb_refl.
Qed.

(** [find_first] finds an occurrence. *)
Lemma find_first_sound (pat s before after : string) :
  find_first pat s = Some (before, after) ->
  s = (before ++ pat ++ after)%string.
Proof.
  revert before. induction s as [|c s IH]; intros before H.
  - cbn in H. destruct (strip_prefix pat "") eqn:Hp; [|discriminate].
    injection H as <- <-. rewrite append_empty. now apply strip_prefix_sound.
  - cbn in H. destruct (strip_prefix pat (String c s)) eqn:Hp.
    + injection H as <- <-. rewrite append_empty. now apply strip_prefix_sound.
    + destruct (find_first pat s) as [[b a]|]; [|discriminate].
      injection H as <- <-. rewrite append_cons. f_equal. now apply IH.
Qed.

(** It finds the first one: none starts earlier. *)
Lemma find_first_earliest (pat s before after before' after' : string) :
  find_first pat s = Some (before, after) ->
  s = (before' ++ pat ++ after')%string ->
  String.length before <= String.length before'.
Proof.
  revert before before'. induction s as [|c s IH]; intros before before' H Hs.
  - cbn in H. destruct (strip_prefix pat ""); [|discriminate].
    injection H as <- <-. cbn. lia.
  - cbn in H. destruct (strip_prefix pat (String c s)) eqn:Hp.
    + injection H as <- <-. cbn. lia.
    + destruct (find_first pat s) as [[b a]|] eqn:Hf; [|discriminate].
      injection H as <- <-.
      destruct before' as [|c' before'].
      * rewrite append_empty in Hs. rewrite Hs, strip_prefix_complete in Hp.
        discriminate.
      * rewrite append_cons in Hs. injection Hs as -> Hs. cbn.
        apply le_n_S. now apply (IH b before').
Qed.

(** It misses only what does not occur. *)
Lemma find_first_none (pat s before after : string) :
  find_first pat s = None -> s <> (before ++ pat ++ after)%string.
Proof.
  revert before. induction s as [|c s IH]; intros before H Hs.
  - cbn in H. destruct (strip_prefix pat "") eqn:Hp; [discriminate|].
    destruct before; [|discriminate]. rewrite append_empty in Hs.
    rewrite Hs, strip_prefix_complete in Hp. discriminate.
  - cbn in H. destruct (strip_prefix pat (String c s)) eqn:Hp; [discriminate|].
    destruct (find_first pat s) as [[b a]|] eqn:Hf; [discriminate|].
    destruct before as [|c' before].
    + rewrite append_empty in Hs. rewrite Hs, strip_prefix_complete in Hp.
      discriminate.
    + rewrite append_cons in Hs. injection Hs as -> Hs. now apply (IH before).
Qed.

Lemma get_substitution_plain (matched before after template : string) :
  plain template = true ->
  get_substitution matched before after template = template.
Proof.
  induction template as [|c rest IH]; cbn; [reflexivity|].
  intros H. apply andb_true_iff in H as [Hc Hrest].
  apply negb_true_iff in Hc. rewrite Hc. f_equal. now apply IH.
Qed.

(** [replace] with a replacement free of [$] puts the replacement where
    the first occurrence of the pattern was. *)
Lemma string_replace_plain (s pat replacement : string) :
  plain replacement = true ->
  string_replace s pat replacement = replace_token s pat replacement.
Proof.
  intros H. unfold string_replace, replace_token.
  destruct (find_first pat s) as [[before after]|]; [|reflexivity].
  now rewrite get_substitution_plain.
Qed.

(** *** Switching the language *)

Lemma differs_true (a b : option string) : differs a b = true <-> a <> b.
Proof.
  unfold differs. rewrite negb_true_iff, bool_decide_eq_false. tauto.
Qed.

Lemma differs_false (a b : option string) : differs a b = false <-> a = b.
Proof.
  unfold differs. rewrite negb_false_iff, bool_decide_eq_true. tauto.
Qed.

Lemma schedule_state (callback : option Callback) (w : World) :
  resources (schedule callback w) = resources w
  /\ defaultLanguage (schedule callback w) = defaultLanguage w
  /\ selectedLanguage (schedule callback w) = selectedLanguage w
  /\ inflight (schedule callback w) = inflight w
  /\ called (schedule callback w) = called w
  /\ log (schedule callback w) = log w.
Proof. destruct callback; repeat split. Qed.

Ltac differs_facts :=
  repeat match goal with
         | H : differs _ _ = true |- _ => apply differs_true in H
         | H : differs _ _ = false |- _ => apply differs_false in H
         end.

(** The three outcomes of [setLanguage], by the tests of its two [if]s. *)
Lemma setLanguage_cases (language : string) (callback : option Callback) (w : World) :
  (defaultLanguage w <> Some language /\ selectedLanguage w <> Some language
   /\ defaultLanguage w <> selectedLanguage w
   /\ setLanguage language callback w =
        loadResources language callback
          (set_selectedLanguage (Some language)
             (set_resources (delete (to_string (selectedLanguage w)) (resources w)) w)))
  \/ (defaultLanguage w <> Some language /\ selectedLanguage w <> Some language
      /\ defaultLanguage w = selectedLanguage w
      /\ setLanguage language callback w =
           loadResources language callback (set_selectedLanguage (Some language) w))
  \/ ((defaultLanguage w = Some language \/ selectedLanguage w = Some language)
      /\ setLanguage language callback w = schedule callback w).
Proof.
  unfold setLanguage.
  destruct (differs (defaultLanguage w) (selectedLanguage w)) eqn:Hds;
    destruct (differs (defaultLanguage w) (Some language)) eqn:Hd;
    destruct (differs (selectedLanguage w) (Some language)) eqn:Hs;
    cbn [andb set_resources defaultLanguage selectedLanguage];
    rewrite ?Hd, ?Hs; cbn [andb];
    differs_facts; auto 10.
Qed.




(** C5 as stated fails: with default [en-us] and [fr-fr] selected,
    [setLanguage("en-us")] leaves [fr-fr] selected; the selected language
    does not become the default language. *)
Theorem setLanguage_to_default_stays_diverged :
  defaultLanguage french_session = Some "en-us"
  /\ selectedLanguage french_session = Some "fr-fr"
  /\ defaultLanguage (setLanguage "en-us" None french_session) = Some "en-us"
  /\ selectedLanguage (setLanguage "en-us" None french_session) = Some "fr-fr".
Proof. vm_compute. repeat split. Qed.

(** The same from every state: a call with the default language, or with
    the selected language, changes neither language. *)
Lemma setLanguage_in_use_keeps_languages
    (w : World) (language : string) (callback : option Callback) :
  defaultLanguage w = Some language \/ selectedLanguage w = Some language ->
  setLanguage language callback w = schedule callback w.
Proof.
  intros Huse.
  destruct (setLanguage_cases language callback w)
    as [(Hd & Hs & _) | [(Hd & Hs & _) | (_ & ->)]]; [tauto | tauto | reflexivity].
Qed.

(** C5, amended: from a state where the selected language B differs from
    the default language A, [setLanguage(A)] takes the [else] branch of
    line 122: both languages stay as they are, so the selected language
    still differs from the default one; nothing is loaded, removed or
    written to [$log], and the callback is queued on [$timeout]. *)
Theorem setLanguage_to_default_keeps_selection
    (w : World) (A B : string) (callback : option Callback) :
  defaultLanguage w = Some A ->
  selectedLanguage w = Some B ->
  A <> B ->
  let w' := setLanguage A callback w in
  selectedLanguage w' = Some B
  /\ defaultLanguage w' = Some A
  /\ selectedLanguage w' <> defaultLanguage w'
  /\ resources w' = resources w
  /\ inflight w' = inflight w
  /\ log w' = log w
  /\ called w' = called w
  /\ timers w' = timers w ++ option_list callback.
Proof.
  intros Hd Hs Hne w'. subst w'.
  destruct (setLanguage_cases A callback w)
    as [(Hd' & _) | [(Hd' & _) | (_ & ->)]]; [contradiction | contradiction |].
  destruct callback; cbn; rewrite ?app_nil_r, Hd, Hs;
    repeat split; congruence.
Qed.

Lemma setLanguage_to_default_keeps_selection_witness :
  selectedLanguage (setLanguage "en-us" (Some 6) french_session) = Some "fr-fr"
  /\ timers (setLanguage "en-us" (Some 6) french_session) = [6].
Proof.
  assert (Hne : "en-us" <> "fr-fr") by discriminate.
  destruct (setLanguage_to_default_keeps_selection french_session "en-us" "fr-fr"
              (Some 6) eq_refl eq_refl Hne) as (Hs & _ & _ & _ & _ & _ & _ & Ht).
  split; [exact Hs | exact Ht].
Defined.

(** After a call of [setLanguage(language)], [language] is the default or
    the selected language. *)
Lemma setLanguage_in_use (w : World) (language : string) (callback : option Callback) :
  defaultLanguage (setLanguage language callback w) = Some language
  \/ selectedLanguage (setLanguage language callback w) = Some language.
Proof.
  destruct (setLanguage_cases language callback w)
    as [(_ & _ & _ & ->) | [(_ & _ & _ & ->) | (Huse & ->)]];
    [right; reflexivity | right; reflexivity |].
  destruct (schedule_state callback w) as (_ & -> & -> & _). exact Huse.
Qed.

(** *** Turns of the event loop leave the languages alone *)

Lemma step_languages (t : Turn) (w : World) :
  defaultLanguage (step t w) = defaultLanguage w
  /\ selectedLanguage (step t w) = selectedLanguage w.
Proof.
  destruct t as [i result | i |]; cbn; unfold answer, fire.
  - destruct (inflight w !! i) as [r|]; [|auto].
    unfold on_loaded. destruct (req_callback r); auto.
  - destruct (inflight w !! i); auto.
  - destruct (timers w); auto.
Qed.

Lemma run_languages (turns : list Turn) (w : World) :
  defaultLanguage (run turns w) = defaultLanguage w
  /\ selectedLanguage (run turns w) = selectedLanguage w.
Proof.
  revert w. induction turns as [|t turns IH]; intros w; [auto|].
  change (run (t :: turns) w) with (run turns (step t w)).
  destruct (IH (step t w)) as [-> ->]. apply step_languages.
Qed.

Lemma iter_fire (n : nat) (w : World) :
  length (timers w) = n ->
  Nat.iter n fire w = set_called (called w ++ timers w) (set_timers [] w).
Proof.
  revert w. induction n as [|n IH]; intros w Hlen.
  - destruct w as [b r d s l q t c]. cbn in *.
    destruct t; [|discriminate]. now rewrite app_nil_r.
  - rewrite Nat.iter_succ_r. unfold fire at 2.
    destruct (timers w) as [|c rest] eqn:Ht; [discriminate|].
    rewrite IH by (cbn in *; lia).
    unfold set_called, set_timers. cbn. now rewrite <- app_assoc.
Qed.

(** [flush] runs the queued callbacks in the order they were queued. *)
Lemma flush_spec (w : World) :
  flush w = set_called (called w ++ timers w) (set_timers [] w).
Proof. now apply iter_fire. Qed.

(** C9: a second call [setLanguage(X)] after a first one, whatever the
    reader answered and whichever timers fired in between, issues no load,
    removes nothing from [resources], keeps both languages, and queues the
    callback on [$timeout]: the callback does not run during the call and
    runs when the timers fire. *)
Theorem setLanguage_twice
    (w : World) (X : string) (first second : option Callback) (turns : list Turn) :
  let w2 := run turns (setLanguage X first w) in
  let w3 := setLanguage X second w2 in
  inflight w3 = inflight w2
  /\ resources w3 = resources w2
  /\ defaultLanguage w3 = defaultLanguage w2
  /\ selectedLanguage w3 = selectedLanguage w2
  /\ called w3 = called w2
  /\ timers w3 = timers w2 ++ option_list second
  /\ called (flush w3) = called w2 ++ timers w2 ++ option_list second.
Proof.
  intros w2 w3.
  assert (Heq : w3 = schedule second w2).
  { apply setLanguage_in_use_keeps_languages. subst w2.
    destruct (run_languages turns (setLanguage X first w)) as [-> ->].
    apply setLanguage_in_use. }
  rewrite flush_spec, Heq. destruct second; cbn; rewrite ?app_nil_r; auto 10.
Qed.

(** *** Loading *)

(** A failure answered to any request in flight only writes the error. *)
Lemma reader_failure (w : World) (i : nat) (r : Request) :
  inflight w !! i = Some r ->
  step (ReaderFails i) w =
    log_error ("File [" ++ req_file r ++ "] was not found.")%string
      (set_inflight (take i (inflight w) ++ drop (S i) (inflight w)) w).
Proof. intros Hr. cbn. unfold answer. now rewrite Hr. Qed.

(** C7: [loadResources(language, callback)] asks the reader for
    [basePath + "resources." + language + ".json"]; when the reader answers
    with a failure, nothing is stored in [resources], the callback is
    neither run nor queued, the request is over, and [$log] receives one
    error, which quotes the file asked for. *)
Theorem loadResources_failure
    (w : World) (language : string) (callback : option Callback) :
  let file := (basePath w ++ "resources." ++ language ++ ".json")%string in
  let w1 := loadResources language callback w in
  let w2 := step (ReaderFails (length (inflight w))) w1 in
  inflight w1 = inflight w ++ [{| req_file := file; req_language := language;
                                  req_callback := callback |}]
  /\ resources w2 = resources w
  /\ timers w2 = timers w
  /\ called w2 = called w
  /\ inflight w2 = inflight w
  /\ defaultLanguage w2 = defaultLanguage w
  /\ selectedLanguage w2 = selectedLanguage w
  /\ log w2 = log w ++ [LogError ("File [" ++ file ++ "] was not found.")%string].
Proof.
  intros file w1 w2. split; [reflexivity|].
  subst w2. erewrite reader_failure.
  2:{ subst w1. unfold loadResources. cbn [inflight set_inflight].
      rewrite lookup_app_r by lia. now rewrite Nat.sub_diag. }
  subst w1 file. cbn. rewrite take_app_length.
  rewrite drop_ge by (rewrite length_app; cbn; lia).
  rewrite app_nil_r. repeat split; reflexivity.
Qed.

(** *** The languages kept in [resources] *)


(** A file that arrives after its language was left is stored all the
    same: [setLanguage("fr-fr")] and [setLanguage("de-de")] called in a
    row, then both files arrive. *)
Lemma late_file_is_stored :
  let w := run [ReaderSucceeds 0 fr_fr_terms; ReaderSucceeds 0 de_de_terms]
             (setLanguage "de-de" None (setLanguage "fr-fr" None english_session)) in
  inflight w = []
  /\ defaultLanguage w = Some "en-us"
  /\ selectedLanguage w = Some "de-de"
  /\ resources w !! "fr-fr" = Some fr_fr_terms.
Proof. vm_compute. repeat split. Qed.

Lemma flush_state (w : World) :
  resources (flush w) = resources w
  /\ defaultLanguage (flush w) = defaultLanguage w
  /\ selectedLanguage (flush w) = selectedLanguage w
  /\ inflight (flush w) = inflight w.
Proof. rewrite flush_spec. repeat split. Qed.


(** With one request in flight, its file is stored or not. *)
Lemma settle_one (a : Answer) (w : World) (r : Request) :
  inflight w = [r] ->
  resources (settle a w) =
    match a with
    | Loaded result => <[req_language r := result]> (resources w)
    | NotFound => resources w
    end
  /\ defaultLanguage (settle a w) = defaultLanguage w
  /\ selectedLanguage (settle a w) = selectedLanguage w
  /\ inflight (settle a w) = [].
Proof.
  intros Hq. unfold settle.
  destruct (flush_state (step match a with
                              | Loaded result => ReaderSucceeds 0 result
                              | NotFound => ReaderFails 0
                              end w)) as (-> & -> & -> & ->).
  destruct a; cbn; unfold answer; rewrite Hq; cbn.
  - unfold on_loaded. destruct (req_callback r); cbn; auto.
  - auto.
Qed.






(** *** Looking a term up *)

(** The loop of [getDescendantProp] reads properties of truthy values
    only: no read of [null] or [undefined] makes it throw. *)
Lemma descend_returns (arr : list string) (obj : Value) :
  truthy obj = true -> exists v, descend obj arr = Ok v.
Proof.
  revert obj. induction arr as [|name arr IH]; intros obj Hobj; cbn; [eauto|].
  destruct obj as [| |n|s|members]; try discriminate; cbn.
  - eauto.
  - destruct (truthy (string_prop s name)) eqn:Hv; eauto.
  - destruct (members !! name) as [v|]; cbn; [|eauto].
    destruct (truthy v) eqn:Hv; eauto.
Qed.

(** Where the path addresses a value of the tree, the loop returns it. *)
Lemma descend_addressed (path : list string) (tree v : Value) :
  path <> [] -> tree_get tree path = Some v -> descend tree path = Ok v.
Proof.
  revert tree. induction path as [|name path IH]; intros tree Hne Hget; [done|].
  cbn in Hget. destruct tree as [| | | |members]; try discriminate.
  cbn. destruct (members !! name) as [x|]; [|discriminate].
  destruct path as [|name' path].
  - cbn in *. injection Hget as ->. now destruct (truthy v).
  - destruct (truthy x) eqn:Hx; [now apply IH|].
    destruct x; cbn in Hget; discriminate.
Qed.

(** Where the key leaves the tree, the loop returns a falsy value. *)
Lemma descend_misses (path : list string) (tree : Value) :
  misses tree path = true ->
  exists v, descend tree path = Ok v /\ truthy v = false.
Proof.
  revert tree. induction path as [|name path IH]; intros tree Hmiss;
    [discriminate|].
  cbn in Hmiss. destruct tree as [| | | |members]; try discriminate. cbn.
  destruct (members !! name) as [x|]; cbn; [|eauto].
  destruct (truthy x) eqn:Hx; eauto.
Qed.

Lemma split_dot_nonempty (s : string) : split_dot s <> [].
Proof.
  destruct s as [|c s]; cbn; [discriminate|].
  destruct (Ascii.eqb c "."); [discriminate|].
  destruct (split_dot s); discriminate.
Qed.

Lemma truthy_str_Some (s : string) : s <> "" -> truthy_str (Some s) = true.
Proof.
  intros Hs. cbn. apply negb_true_iff, String.eqb_neq. exact Hs.
Qed.

(** A tree in which a key addresses something is an object. *)
Lemma addressed_truthy (tree v : Value) (term : string) :
  tree_get tree (split_dot term) = Some v -> truthy tree = true.
Proof.
  pose proof (split_dot_nonempty term) as Hne.
  destruct (split_dot term); [done|]. cbn. now destruct tree.
Qed.

Lemma try_language_unfold (language : option string) (term : string)
    (translation : Value) (w : World) :
  try_language language term translation w =
    match resources w !! to_string language with
    | Some tree =>
        if truthy tree then
          match getDescendantProp tree term with
          | Ok found => (Ok (found, truthy found), w)
          | Throw f => (Throw f, w)
          end
        else (Ok (translation, false), w)
    | None => (Ok (translation, false), w)
    end.
Proof.
  unfold try_language, bind, gets. cbn.
  destruct (resources w !! to_string language) as [tree|]; [|reflexivity].
  destruct (truthy tree); [|reflexivity].
  unfold lift. now destruct (getDescendantProp tree term).
Qed.

(** With the reads of [get_prop], the lookup in one language returns, and
    leaves the service as it is. *)
Lemma try_language_returns (language : option string) (term : string)
    (translation : Value) (w : World) :
  exists r, try_language language term translation w = (Ok r, w).
Proof.
  rewrite try_language_unfold.
  destruct (resources w !! to_string language) as [tree|]; [|eauto].
  destruct (truthy tree) eqn:Ht; [|eauto].
  destruct (descend_returns (split_dot term) tree Ht) as [v Hv].
  unfold getDescendantProp. rewrite Hv. eauto.
Qed.

(** The lookup in a language whose tree has the key addressing [v]. *)
Lemma try_language_addressed (language : option string) (term : string)
    (translation tree v : Value) (w : World) :
  resources w !! to_string language = Some tree ->
  tree_get tree (split_dot term) = Some v ->
  try_language language term translation w = (Ok (v, truthy v), w).
Proof.
  intros Hres Hget. rewrite try_language_unfold, Hres.
  rewrite (addressed_truthy tree v term Hget).
  unfold getDescendantProp.
  now rewrite (descend_addressed _ _ _ (split_dot_nonempty term) Hget).
Qed.

(** The fallback returns what the key addresses in the tree of the
    default language. *)
Lemma fallback_addressed (language : option string) (term d : string)
    (translation tree v : Value) (w : World) :
  defaultLanguage w = Some d ->
  resources w !! d = Some tree ->
  tree_get tree (split_dot term) = Some v ->
  fst (fallback language term translation w) = Ok v.
Proof.
  intros Hd Hres Hget. unfold fallback, bind, gets, when, modify, ret.
  rewrite Hd.
  destruct (differs (selectedLanguage w) language && differs (Some d) language);
    rewrite (try_language_addressed (Some d) term translation tree v) by done;
    now destruct (truthy v).
Qed.

(** C8: [getTerm] called without a key, or with the empty key, returns
    [null] and writes one warning to [$log]; nothing else of the service
    changes, and neither the trees, the languages nor the arguments have a
    part in the result. *)
Theorem getTerm_without_term (language : option string) (args : list string)
    (w : World) :
  let w' := {| basePath := basePath w; resources := resources w;
               defaultLanguage := defaultLanguage w;
               selectedLanguage := selectedLanguage w;
               log := log w ++ [LogWarn "Term is required."];
               inflight := inflight w; timers := timers w; called := called w |} in
  getTerm None language args w = (Ok VNull, w')
  /\ getTerm (Some "") language args w = (Ok VNull, w').
Proof. split; reflexivity. Qed.

(** C3: with [{"password": {"length": "Password length"}}] loaded for
    the default language [en-us] and [{"password": "Mot de passe"}] for
    the selected language [fr-fr], the key [password.length] addresses
    nothing in the French tree and a string in the English one, yet
    [getTerm] returns 12, the length of ["Mot de passe"], without any
    fallback, where the specification has it return ["Password length"]. *)
Theorem getTerm_reads_string_length :
  selectedLanguage password_session = Some "fr-fr"
  /\ defaultLanguage password_session = Some "en-us"
  /\ resources password_session !! "fr-fr" = Some fr_fr_password
  /\ resources password_session !! "en-us" = Some en_us_password
  /\ tree_get fr_fr_password (split_dot "password.length") = None
  /\ tree_get en_us_password (split_dot "password.length")
     = Some (VString "Password length")
  /\ getTerm (Some "password.length") None [] password_session
     = (Ok (VNumber 12), password_session).
Proof. vm_compute. repeat split. Qed.

(** C10: when the key (not empty) addresses the empty string in the tree
    loaded for the effective language, [getTerm] goes on as after a miss:
    it runs the fallback to the default language, with the empty string as
    the translation so far, and what the key addresses in the tree of the
    default language is what is returned. *)
Theorem getTerm_empty_string_is_a_miss
    (w : World) (term : string) (language : option string) (args : list string)
    (e : string) (tree : Value) :
  term <> "" ->
  effective_language language w = Some e ->
  e <> "" ->
  resources w !! e = Some tree ->
  tree_get tree (split_dot term) = Some (VString "") ->
  getTerm (Some term) language args w =
    (do translation <- fallback (Some e) term (VString "");
     apply_arguments translation args) w
  /\ forall (d : string) (default_tree v : Value),
       defaultLanguage w = Some d ->
       resources w !! d = Some default_tree ->
       tree_get default_tree (split_dot term) = Some v ->
       fst (getTerm (Some term) language [] w) = Ok v.
Proof.
  intros Hterm Heff He Hres Hleaf.
  assert (Hrun : forall args',
    getTerm (Some term) language args' w =
      (do translation <- fallback (Some e) term (VString "");
       apply_arguments translation args') w).
  { intros args'. unfold getTerm. rewrite (truthy_str_Some term Hterm).
    unfold bind at 1. unfold gets. rewrite Heff, (truthy_str_Some e He).
    cbn [negb to_string]. unfold resolve, bind.
    now rewrite (try_language_addressed (Some e) term VNull tree (VString "") w
                   Hres Hleaf). }
  split; [apply Hrun|].
  intros d default_tree v Hd Hdres Hget. rewrite Hrun. unfold bind.
  pose proof (fallback_addressed (Some e) term d (VString "") default_tree v w
                Hd Hdres Hget) as Hfb.
  destruct (fallback (Some e) term (VString "") w) as [[t|f] w'];
    cbn in Hfb; [injection Hfb as ->|discriminate].
  unfold apply_arguments. rewrite andb_false_r. reflexivity.
Qed.

Lemma getTerm_empty_string_is_a_miss_witness :
  fst (getTerm (Some "greet") None [] blank_session)
  = Ok (VString "Hi {0}, meet {1}").
Proof.
  assert (H : "greet" <> "" /\ "xx-xx" <> "") by (split; discriminate).
  destruct H as [Hterm Hlang].
  apply (proj2 (getTerm_empty_string_is_a_miss blank_session "greet" None []
                  "xx-xx" blank_terms Hterm eq_refl Hlang eq_refl eq_refl)
           "en-us" en_us_terms (VString "Hi {0}, meet {1}")).
  - reflexivity.
  - vm_compute. reflexivity.
  - vm_compute. reflexivity.
Defined.

(** *** Substituting the arguments *)

(** C2: with [{"user": {"name": "Name"}}] loaded, [getTerm("user",
    undefined, "Ann")] resolves the key to the nested object and then
    throws at [translation.replace], where the specification has every call
    return a value. *)
Theorem getTerm_subtree_with_argument_throws :
  getTerm (Some "user") None ["Ann"] english_session =
    (Throw (TypeError "translation.replace is not a function"), english_session).
Proof. vm_compute. reflexivity. Qed.

(** The example of the specification. *)
Lemma getTerm_greet :
  fst (getTerm (Some "greet") None ["Ann"; "Bob"] english_session)
  = Ok (VString "Hi Ann, meet Bob").
Proof. vm_compute. reflexivity. Qed.

(** With arguments free of [$], the loop replaces token after token. *)
Lemma substitute_plain (args : list string) (s : string) (count : nat) :
  forallb plain args = true ->
  substitute (VString s) count args = Ok (VString (replace_tokens s count args)).
Proof.
  revert s count. induction args as [|arg args IH]; intros s count H;
    [reflexivity|].
  cbn in H. apply andb_true_iff in H as [Harg Hargs].
  cbn. rewrite string_replace_plain by exact Harg. now apply IH.
Qed.

(** Whenever the lookup yields a string that is not empty and the
    arguments are free of [$], [getTerm] returns the string with the
    tokens replaced one after the other. *)
Lemma getTerm_substitutes_plain_arguments
    (w w' : World) (term : string) (language : option string) (e s : string)
    (args : list string) :
  term <> "" ->
  effective_language language w = Some e ->
  e <> "" ->
  resolve (Some e) term w = (Ok (VString s), w') ->
  s <> "" ->
  forallb plain args = true ->
  getTerm (Some term) language args w =
    (Ok (VString (replace_tokens s 0 args)), w').
Proof.
  intros Hterm Heff He Hres Hs Hargs.
  unfold getTerm. rewrite (truthy_str_Some term Hterm).
  unfold bind at 1. unfold gets. rewrite Heff, (truthy_str_Some e He).
  cbn [negb to_string]. unfold bind. rewrite Hres.
  unfold apply_arguments, lift, ret.
  destruct args as [|arg args]; [now rewrite andb_false_r|].
  cbn [truthy]. apply String.eqb_neq in Hs. rewrite Hs. cbn [negb andb].
  rewrite bool_decide_eq_false_2 by discriminate. cbn [negb].
  now rewrite substitute_plain.
Qed.

(** C4: on the term ["Hi {0}, meet {1}"], [getTerm("greet", undefined,
    "$&", "Bob")] leaves the token [{0}] in place, because [replace] reads
    [$&] in the replacement as the matched text, where the specification
    has the token replaced by the argument: ["Hi $&, meet Bob"]. *)
Theorem getTerm_dollar_argument :
  fst (getTerm (Some "greet") None ["$&"; "Bob"] english_session)
  = Ok (VString "Hi {0}, meet Bob").
Proof. vm_compute. reflexivity. Qed.

(** ** Further properties of the service *)

(** *** Loading and the callbacks *)

(** X1: when the reader answers a request in flight with a file, the
    language of the request having a hyphen in its code, the file becomes
    the tree of that language, whatever was stored for it before; the
    trees of the other languages, both languages and [$log] stay as they
    are; the callback, if any, is queued on [$timeout] and not run yet. *)
Theorem reader_success_stores (w : World) (i : nat) (r : Request) (result : Value) :
  hyphenated (req_language r) = true ->
  inflight w !! i = Some r ->
  let w' := step (ReaderSucceeds i result) w in
  resources w' !! req_language r = Some result
  /\ (forall l : string, l <> req_language r -> resources w' !! l = resources w !! l)
  /\ defaultLanguage w' = defaultLanguage w
  /\ selectedLanguage w' = selectedLanguage w
  /\ log w' = log w
  /\ timers w' = timers w ++ option_list (req_callback r)
  /\ called w' = called w
  /\ inflight w' = take i (inflight w) ++ drop (S i) (inflight w).
Proof.
  intros _ Hr w'. subst w'. cbn. unfold answer. rewrite Hr. unfold on_loaded.
  destruct (req_callback r); cbn; rewrite ?app_nil_r;
    (split; [apply lookup_insert_eq|]);
    (split; [intros l Hl; now apply lookup_insert_ne|]); auto 10.
Qed.

Lemma reader_success_stores_witness :
  let w := setLanguage "fr-fr" (Some 4) english_session in
  let w' := step (ReaderSucceeds 0 fr_fr_terms) w in
  resources w' !! "fr-fr" = Some fr_fr_terms
  /\ resources w' !! "en-us" = Some en_us_terms
  /\ timers w' = [4]
  /\ called w' = [].
Proof.
  intros w w'.
  destruct (reader_success_stores w 0
              {| req_file := "resources.fr-fr.json"; req_language := "fr-fr";
                 req_callback := Some 4 |} fr_fr_terms eq_refl eq_refl)
    as (Hnew & Hold & _ & _ & _ & Ht & Hc & _).
  split; [exact Hnew|]. split.
  - assert (Hne : "en-us" <> "fr-fr") by discriminate.
    exact (eq_trans (Hold "en-us" Hne) eq_refl).
  - split; [exact Ht | exact Hc].
Defined.

(** X2: [setDefaultLanguage(language, callback)], for a language with a
    hyphen in its code, followed by the answer of the reader, nothing else
    being in flight or queued: both languages are [language]; with a file
    the tree is added to [resources], from which nothing is removed, and
    the callback has run once; without a file [resources] is as before,
    the callback has not run and [$log] has received the error. *)
Theorem setDefaultLanguage_settled
    (w : World) (language : string) (callback : option Callback) (a : Answer) :
  hyphenated language = true ->
  inflight w = [] ->
  timers w = [] ->
  let w' := settle a (setDefaultLanguage language callback w) in
  getDefaultLanguage w' = Some language
  /\ getSelectedLanguage w' = Some language
  /\ inflight w' = []
  /\ timers w' = []
  /\ match a with
     | Loaded tree =>
         resources w' = <[language := tree]> (resources w)
         /\ called w' = called w ++ option_list callback
         /\ log w' = log w
     | NotFound =>
         resources w' = resources w
         /\ called w' = called w
         /\ log w' = log w ++ [LogError ("File ["
                                          ++ (basePath w ++ "resources." ++ language ++ ".json")
                                          ++ "] was not found.")%string]
     end.
Proof.
  intros _ Hq Ht w'. subst w'. unfold settle. rewrite flush_spec.
  destruct a as [tree|]; cbn; unfold answer, setDefaultLanguage, loadResources;
    cbn; rewrite Hq; cbn.
  - unfold on_loaded. cbn. destruct callback; cbn; rewrite Ht, ?app_nil_r; auto 10.
  - rewrite Ht, app_nil_r. auto 10.
Qed.

Lemma setDefaultLanguage_settled_witness :
  let w' := settle (Loaded de_de_terms) (setDefaultLanguage "de-de" (Some 9) french_session) in
  getDefaultLanguage w' = Some "de-de"
  /\ resources w' = <["de-de" := de_de_terms]> (resources french_session)
  /\ called w' = [9].
Proof.
  intros w'.
  destruct (setDefaultLanguage_settled french_session "de-de" (Some 9)
              (Loaded de_de_terms) eq_refl eq_refl eq_refl)
    as (Hd & _ & _ & _ & Hr & Hc & _).
  split; [exact Hd|]. split; [exact Hr | exact Hc].
Defined.

(** X3: the callback of [setLanguage] never runs during the call. With
    nothing else in flight or queued, once the reader has answered and the
    timers have fired it has run exactly once when no load was needed
    (the language is the default or the selected one) or the file has
    arrived, and not at all when the file was not found. The language and
    the language selected before have a hyphen in their codes, so that
    neither the [delete] of line 119 nor the store of line 79 throws. *)
Theorem setLanguage_callback
    (w : World) (language : string) (c : Callback) (a : Answer) :
  hyphenated language = true ->
  plain_language (selectedLanguage w) = true ->
  inflight w = [] ->
  timers w = [] ->
  called (setLanguage language (Some c) w) = called w
  /\ called (settle a (setLanguage language (Some c) w)) =
       if differs (defaultLanguage w) (Some language)
          && differs (selectedLanguage w) (Some language)
       then match a with
            | Loaded _ => called w ++ [c]
            | NotFound => called w
            end
       else called w ++ [c].
Proof.
  intros _ _ Hq Ht. unfold settle. rewrite flush_spec.
  destruct (setLanguage_cases language (Some c) w)
    as [(Hd & Hs & _ & ->) | [(Hd & Hs & _ & ->) | (Huse & ->)]].
  - apply differs_true in Hd, Hs. rewrite Hd, Hs. split; [reflexivity|].
    destruct a; cbn; unfold answer, loadResources; cbn; rewrite Hq; cbn;
      rewrite Ht, ?app_nil_r; reflexivity.
  - apply differs_true in Hd, Hs. rewrite Hd, Hs. split; [reflexivity|].
    destruct a; cbn; unfold answer, loadResources; cbn; rewrite Hq; cbn;
      rewrite Ht, ?app_nil_r; reflexivity.
  - assert (Hb : differs (defaultLanguage w) (Some language)
                 && differs (selectedLanguage w) (Some language) = false).
    { destruct Huse as [H|H]; apply differs_false in H; rewrite H;
        [reflexivity | apply andb_false_r]. }
    rewrite Hb. split; [reflexivity|].
    destruct a; cbn; unfold answer; cbn; rewrite Hq; cbn; rewrite Ht; reflexivity.
Qed.

Lemma setLanguage_callback_witness :
  called (setLanguage "fr-fr" (Some 5) english_session) = []
  /\ called (settle NotFound (setLanguage "fr-fr" (Some 5) english_session)) = []
  /\ called (settle NotFound (setLanguage "en-us" (Some 5) english_session)) = [5].
Proof.
  split; [|split].
  - exact (proj1 (setLanguage_callback english_session "fr-fr" 5 NotFound
                    eq_refl eq_refl eq_refl eq_refl)).
  - exact (proj2 (setLanguage_callback english_session "fr-fr" 5 NotFound
                    eq_refl eq_refl eq_refl eq_refl)).
  - exact (proj2 (setLanguage_callback english_session "en-us" 5 NotFound
                    eq_refl eq_refl eq_refl eq_refl)).
Defined.


(** *** What [getTerm] writes and returns *)

Lemma set_log_nil (w : World) : set_log (log w ++ []) w = w.
Proof. destruct w. unfold set_log. cbn. now rewrite app_nil_r. Qed.

Lemma log_warn_logged (message : string) (extra : list Diagnostic) (w : World) :
  log_warn message (set_log (log w ++ extra) w)
  = set_log (log w ++ extra ++ [LogWarn message]) w.
Proof. unfold log_warn, set_log. cbn. now rewrite <- app_assoc. Qed.

Lemma try_language_logged (language : option string) (term : string)
    (translation : Value) (extra : list Diagnostic) (w : World) :
  try_language language term translation (set_log (log w ++ extra) w)
  = (fst (try_language language term translation w), set_log (log w ++ extra) w).
Proof. rewrite !try_language_unfold. cbn.
  destruct (resources w !! to_string language) as [tree|]; [|reflexivity].
  destruct (truthy tree); [|reflexivity].
  now destruct (getDescendantProp tree term).
Qed.

(** The fallback block, by what its lookup gives. *)
Lemma fallback_unfold (language : option string) (term : string)
    (translation : Value) (w : World) :
  exists v found,
    try_language (defaultLanguage w) term translation w = (Ok (v, found), w)
    /\ fallback language term translation w =
         (Ok v, set_log (log w ++ override_warning w language term
                           ++ (if found then []
                               else [LogWarn (not_found_message (defaultLanguage w) term)]))
                  w).
Proof.
  destruct (try_language_returns (defaultLanguage w) term translation w)
    as [[v found] Htry].
  exists v, found. split; [exact Htry|].
  unfold fallback, bind, gets, when, modify, ret, override_warning.
  destruct (differs (selectedLanguage w) language
            && differs (defaultLanguage w) language).
  - unfold log_warn at 1. rewrite try_language_logged, Htry. cbn [fst].
    destruct found; cbn [negb].
    + reflexivity.
    + now rewrite log_warn_logged.
  - rewrite Htry. destruct found; cbn [negb app].
    + now rewrite set_log_nil.
    + reflexivity.
Qed.


(** [getTerm] with a key and a language runs the lookup, then the
    substitution. *)
Lemma getTerm_resolve (w : World) (term : string) (language : option string)
    (args : list string) (e : string) :
  term <> "" ->
  effective_language language w = Some e ->
  e <> "" ->
  getTerm (Some term) language args w =
    (do translation <- resolve (Some e) term; apply_arguments translation args) w.
Proof.
  intros Hterm Heff He. unfold getTerm. rewrite (truthy_str_Some term Hterm).
  unfold bind at 1. unfold gets. rewrite Heff, (truthy_str_Some e He).
  reflexivity.
Qed.

Lemma apply_arguments_world (translation : Value) (args : list string) (w : World) :
  snd (apply_arguments translation args w) = w.
Proof.
  unfold apply_arguments, lift, ret.
  now destruct (truthy translation && negb (bool_decide (args = []))).
Qed.

Lemma apply_arguments_none (translation : Value) (w : World) :
  apply_arguments translation [] w = (Ok translation, w).
Proof. unfold apply_arguments. now rewrite andb_false_r. Qed.


(** The lookup with fallback returns, and only writes to [$log]. *)
Lemma resolve_logs (language : option string) (term : string) (w : World) :
  exists v extra,
    resolve language term w = (Ok v, set_log (log w ++ extra) w)
    /\ length extra <= 2.
Proof.
  unfold resolve, bind.
  destruct (try_language_returns language term VNull w) as [[v found] ->].
  destruct found.
  - exists v, []. rewrite set_log_nil. split; [reflexivity | cbn; lia].
  - destruct (fallback_unfold language term v w) as (v' & found & _ & ->).
    eexists _, _. split; [reflexivity|].
    unfold override_warning.
    destruct (differs (selectedLanguage w) language
              && differs (defaultLanguage w) language);
      destruct found; cbn; lia.
Qed.

(** Whether it returns or throws, [getTerm] only appends to [$log]. *)
Lemma getTerm_only_logs
    (term language : option string) (args : list string) (w : World) :
  exists extra : list Diagnostic,
    snd (getTerm term language args w) = set_log (log w ++ extra) w
    /\ length extra <= 2.
Proof.
  unfold getTerm. destruct (truthy_str term).
  - unfold bind at 1. unfold gets.
    set (lang := effective_language language w).
    destruct (truthy_str lang); cbn [negb].
    + unfold bind. destruct (resolve_logs lang (to_string term) w)
        as (v & extra & -> & Hlen).
      exists extra. now rewrite apply_arguments_world.
    + exists [LogError "There must be a default language defined for the application."].
      unfold bind, modify, ret. rewrite apply_arguments_world.
      split; [reflexivity | cbn; lia].
  - exists [LogWarn "Term is required."]. split; [reflexivity | cbn; lia].
Qed.

(** X5: with a key but no language (no override, or an empty one, and no
    selected language, or an empty one) [getTerm] returns [null] and
    writes one error to [$log], whatever the key and the arguments. *)
Theorem getTerm_without_language
    (term : string) (language : option string) (args : list string) (w : World) :
  term <> "" ->
  truthy_str (effective_language language w) = false ->
  getTerm (Some term) language args w =
    (Ok VNull,
     set_log (log w ++ [LogError
        "There must be a default language defined for the application."]) w).
Proof.
  intros Hterm Hlang. unfold getTerm. rewrite (truthy_str_Some term Hterm).
  unfold bind at 1. unfold gets. rewrite Hlang. reflexivity.
Qed.

Lemma getTerm_without_language_witness :
  getTerm (Some "user.name") (Some "") ["Ann"] init =
    (Ok VNull,
     set_log [LogError "There must be a default language defined for the application."]
       init).
Proof.
  assert (Hterm : "user.name" <> "") by discriminate.
  exact (getTerm_without_language "user.name" (Some "") ["Ann"] init Hterm eq_refl).
Defined.

(** X6: a key that addresses a truthy value in the tree of the effective
    language resolves to that value; nothing is written to [$log] and the
    default language plays no part. *)
Theorem getTerm_hit
    (w : World) (term : string) (language : option string) (e : string)
    (tree v : Value) :
  term <> "" ->
  effective_language language w = Some e ->
  e <> "" ->
  resources w !! e = Some tree ->
  tree_get tree (split_dot term) = Some v ->
  truthy v = true ->
  getTerm (Some term) language [] w = (Ok v, w).
Proof.
  intros Hterm Heff He Hres Hget Hv.
  rewrite (getTerm_resolve w term language [] e Hterm Heff He).
  unfold bind, resolve, bind.
  rewrite (try_language_addressed (Some e) term VNull tree v w Hres Hget), Hv.
  unfold ret. apply apply_arguments_none.
Qed.

Lemma getTerm_hit_witness :
  getTerm (Some "user.name") (Some "en-us") [] french_session
  = (Ok (VString "Name"), french_session).
Proof.
  assert (H : "user.name" <> "" /\ "en-us" <> "") by (split; discriminate).
  destruct H as [Hterm Hlang].
  apply (getTerm_hit french_session "user.name" (Some "en-us") "en-us"
           en_us_terms (VString "Name") Hterm eq_refl Hlang).
  - vm_compute. reflexivity.
  - vm_compute. reflexivity.
  - reflexivity.
Defined.

(** X7: when the key addresses a truthy value that is not a string (a
    nested object, a number) and at least one argument is to be
    substituted, [getTerm] throws at [translation.replace], having written
    nothing to [$log]. *)
Theorem getTerm_throws_on_subtree
    (w : World) (term : string) (language : option string) (e : string)
    (tree v : Value) (arg : string) (args : list string) :
  term <> "" ->
  effective_language language w = Some e ->
  e <> "" ->
  resources w !! e = Some tree ->
  tree_get tree (split_dot term) = Some v ->
  truthy v = true ->
  (forall s : string, v <> VString s) ->
  getTerm (Some term) language (arg :: args) w =
    (Throw (TypeError "translation.replace is not a function"), w).
Proof.
  intros Hterm Heff He Hres Hget Hv Hns.
  rewrite (getTerm_resolve w term language (arg :: args) e Hterm Heff He).
  unfold bind, resolve, bind.
  rewrite (try_language_addressed (Some e) term VNull tree v w Hres Hget), Hv.
  unfold ret, apply_arguments. rewrite Hv. cbn [andb].
  rewrite bool_decide_eq_false_2 by discriminate.
  unfold lift. cbn. destruct v; try reflexivity. now destruct (Hns s).
Qed.

Lemma getTerm_throws_on_subtree_witness :
  getTerm (Some "user") (Some "en-us") ["Ann"; "Bob"] french_session
  = (Throw (TypeError "translation.replace is not a function"), french_session).
Proof.
  assert (H : "user" <> "" /\ "en-us" <> "") by (split; discriminate).
  destruct H as [Hterm Hlang].
  apply (getTerm_throws_on_subtree french_session "user" (Some "en-us") "en-us"
           en_us_terms (VObject {[ "name" := VString "Name" ]}) "Ann" ["Bob"]
           Hterm eq_refl Hlang).
  - vm_compute. reflexivity.
  - vm_compute. reflexivity.
  - reflexivity.
  - discriminate.
Defined.


(** The lookup of a key that addresses a truthy value in the tree of the
    language. *)
Lemma resolve_hit (w : World) (term e : string) (tree v : Value) :
  resources w !! e = Some tree ->
  tree_get tree (split_dot term) = Some v ->
  truthy v = true ->
  resolve (Some e) term w = (Ok v, w).
Proof.
  intros Hres Hget Hv. unfold resolve, bind.
  now rewrite (try_language_addressed (Some e) term VNull tree v w Hres Hget), Hv.
Qed.

(** X8: when the key addresses a string that is not empty and the
    arguments hold no [$], [getTerm] returns the string in which, for the
    arguments taken in order from number 0, the first occurrence of the
    token of that number has given way to the argument; tokens that do not
    occur leave the string as it is. *)
Theorem getTerm_replaces_tokens
    (w : World) (term : string) (language : option string) (e : string)
    (tree : Value) (s : string) (args : list string) :
  term <> "" ->
  effective_language language w = Some e ->
  e <> "" ->
  resources w !! e = Some tree ->
  tree_get tree (split_dot term) = Some (VString s) ->
  s <> "" ->
  forallb plain args = true ->
  getTerm (Some term) language args w = (Ok (VString (replace_tokens s 0 args)), w).
Proof.
  intros Hterm Heff He Hres Hget Hs Hargs.
  apply (getTerm_substitutes_plain_arguments w w term language e s args);
    try assumption.
  apply (resolve_hit w term e tree (VString s) Hres Hget).
  cbn. apply negb_true_iff, String.eqb_neq. exact Hs.
Qed.

Lemma getTerm_replaces_tokens_witness :
  getTerm (Some "greet") None ["Ann"; "Bob"; "Cid"] english_session
  = (Ok (VString "Hi Ann, meet Bob"), english_session).
Proof.
  assert (H : "greet" <> "" /\ "en-us" <> "" /\ "Hi {0}, meet {1}" <> "")
    by (repeat split; discriminate).
  destruct H as (Hterm & Hlang & Hs).
  apply (getTerm_replaces_tokens english_session "greet" None "en-us"
           en_us_terms "Hi {0}, meet {1}" ["Ann"; "Bob"; "Cid"]
           Hterm eq_refl Hlang).
  - vm_compute. reflexivity.
  - vm_compute. reflexivity.
  - exact Hs.
  - reflexivity.
Defined.

Lemma strip_prefix_brace (p s : string) :
  brace_free s = true -> strip_prefix (String "{" p) s = None.
Proof.
  destruct s as [|c s]; [reflexivity|]. cbn [brace_free]. intros H.
  apply andb_true_iff in H as [Hc _]. apply negb_true_iff in Hc.
  change (strip_prefix (String "{" p) (String c s))
    with (if Ascii.eqb "{" c then strip_prefix p s else None).
  rewrite Ascii.eqb_sym in Hc. now rewrite Hc.
Qed.

Lemma find_first_brace (p s : string) :
  brace_free s = true -> find_first (String "{" p) s = None.
Proof.
  induction s as [|c s IH]; intros H.
  - reflexivity.
  - cbn [find_first]. rewrite (strip_prefix_brace p _ H).
    cbn [brace_free] in H. apply andb_true_iff in H as [_ Hs]. now rewrite (IH Hs).
Qed.

Lemma substitute_brace_free (args : list string) (s : string) (count : nat) :
  brace_free s = true -> substitute (VString s) count args = Ok (VString s).
Proof.
  revert count. induction args as [|arg args IH]; intros count H; [reflexivity|].
  cbn [substitute call_replace]. unfold string_replace.
  rewrite append_cons, (find_first_brace _ s H). now apply IH.
Qed.

(** X9: a term without [{] comes back unchanged whatever arguments are
    passed for substitution, [$] patterns included. *)
Theorem getTerm_without_tokens
    (w : World) (term : string) (language : option string) (e : string)
    (tree : Value) (s : string) (args : list string) :
  term <> "" ->
  effective_language language w = Some e ->
  e <> "" ->
  resources w !! e = Some tree ->
  tree_get tree (split_dot term) = Some (VString s) ->
  s <> "" ->
  brace_free s = true ->
  getTerm (Some term) language args w = (Ok (VString s), w).
Proof.
  intros Hterm Heff He Hres Hget Hs Hfree.
  assert (Hv : truthy (VString s) = true)
    by (cbn; apply negb_true_iff, String.eqb_neq; exact Hs).
  rewrite (getTerm_resolve w term language args e Hterm Heff He).
  unfold bind. rewrite (resolve_hit w term e tree (VString s) Hres Hget Hv).
  unfold apply_arguments. rewrite Hv. cbn [andb].
  destruct (negb (bool_decide (args = []))); [|reflexivity].
  unfold lift. now rewrite substitute_brace_free.
Qed.

Lemma getTerm_without_tokens_witness :
  getTerm (Some "user.name") None ["$&"; "Bob"] english_session
  = (Ok (VString "Name"), english_session).
Proof.
  assert (H : "user.name" <> "" /\ "en-us" <> "" /\ "Name" <> "")
    by (repeat split; discriminate).
  destruct H as (Hterm & Hlang & Hs).
  apply (getTerm_without_tokens english_session "user.name" None "en-us"
           en_us_terms "Name" ["$&"; "Bob"] Hterm eq_refl Hlang).
  - vm_compute. reflexivity.
  - vm_compute. reflexivity.
  - exact Hs.
  - reflexivity.
Defined.

Lemma hyphenated_nonempty (code : string) : hyphenated code = true -> code <> "".
Proof. intros H ->. discriminate. Qed.






(** X4: [getTerm] changes nothing but [$log]: the languages, the trees,
    the requests in flight, the timers and the callbacks run are the same
    after the call, returned or thrown, and [$log] has grown by two
    diagnostics at most. *)
Theorem getTerm_reads_only
    (term language : option string) (args : list string) (w : World) :
  let w' := snd (getTerm term language args w) in
  basePath w' = basePath w
  /\ resources w' = resources w
  /\ defaultLanguage w' = defaultLanguage w
  /\ selectedLanguage w' = selectedLanguage w
  /\ inflight w' = inflight w
  /\ timers w' = timers w
  /\ called w' = called w
  /\ exists extra : list Diagnostic, log w' = log w ++ extra /\ length extra <= 2.
Proof.
  intros w'. subst w'.
  destruct (getTerm_only_logs term language args w) as (extra & -> & Hlen).
  cbn. eauto 10.
Qed.



(** X14: after [setDefaultLanguage(language)], for a language with a
    hyphen in its code, and the arrival of the file, every key that
    addresses a string in the file resolves to that string. An empty
    string is returned as well, after the warning of the fallback. *)
Theorem getTerm_after_setDefaultLanguage
    (w0 : World) (language : string) (callback : option Callback)
    (tree : Value) (term s : string) :
  inflight w0 = [] ->
  hyphenated language = true ->
  term <> "" ->
  tree_get tree (split_dot term) = Some (VString s) ->
  let w := settle (Loaded tree) (setDefaultLanguage language callback w0) in
  getTerm (Some term) None [] w =
    (Ok (VString s),
     set_log (log w ++ (if String.eqb s ""
                        then [LogWarn (not_found_message (Some language) term)]
                        else [])) w).
Proof.
  intros Hq Hhyp Hterm Hget w.
  pose proof (hyphenated_nonempty language Hhyp) as Hlang.
  destruct (settle_one (Loaded tree) (setDefaultLanguage language callback w0)
              {| req_file := resource_file (basePath w0) language;
                 req_language := language; req_callback := callback |})
    as (Hres & Hdef & Hsel & _).
  { unfold setDefaultLanguage, loadResources. cbn. now rewrite Hq. }
  fold w in Hres, Hdef, Hsel. cbn in Hres, Hdef, Hsel.
  assert (Hlook : resources w !! language = Some tree)
    by (rewrite Hres; apply lookup_insert_eq).
  assert (Heff : effective_language None w = Some language) by exact Hsel.
  rewrite (getTerm_resolve w term None [] language Hterm Heff Hlang).
  unfold bind, resolve, bind.
  rewrite (try_language_addressed (Some language) term VNull tree (VString s) w
             Hlook Hget).
  cbn [truthy]. destruct (String.eqb s "") eqn:Hs; cbn [negb].
  - destruct (fallback_unfold (Some language) term (VString s) w)
      as (v' & found & Htry & ->).
    rewrite Hdef in Htry.
    rewrite (try_language_addressed (Some language) term (VString s) tree
               (VString s) w Hlook Hget) in Htry.
    cbn [truthy] in Htry. rewrite Hs in Htry. injection Htry as <- <-.
    unfold override_warning. rewrite Hsel, Hdef.
    rewrite (proj2 (differs_false (Some language) (Some language)) eq_refl).
    cbn [andb app]. apply apply_arguments_none.
  - unfold ret. rewrite set_log_nil. apply apply_arguments_none.
Qed.

Lemma getTerm_after_setDefaultLanguage_witness :
  let w := settle (Loaded en_us_terms) (setDefaultLanguage "en-us" (Some 1) init) in
  getTerm (Some "user.name") None [] w = (Ok (VString "Name"), set_log (log w) w).
Proof.
  assert (Hterm : "user.name" <> "") by discriminate.
  assert (Hget : tree_get en_us_terms (split_dot "user.name") = Some (VString "Name"))
    by (vm_compute; reflexivity).
  exact (getTerm_after_setDefaultLanguage init "en-us" (Some 1) en_us_terms
           "user.name" "Name" eq_refl eq_refl Hterm Hget).
Defined.


(** *** The descent of [getDescendantProp] *)

Lemma split_dot_dotted (a b : string) :
  split_dot (a ++ "." ++ b) = split_dot a ++ split_dot b.
Proof.
  induction a as [|c a IH].
  - reflexivity.
  - rewrite append_cons. cbn [split_dot]. rewrite IH.
    destruct (Ascii.eqb c "."); [reflexivity|].
    pose proof (split_dot_nonempty a) as Hne.
    destruct (split_dot a); [contradiction | reflexivity].
Qed.

Lemma descend_app (p q : list string) (obj : Value) :
  p <> [] ->
  descend obj (p ++ q) =
    match descend obj p with
    | Ok v => if truthy v then descend v q else Ok v
    | Throw f => Throw f
    end.
Proof.
  revert obj. induction p as [|name p IH]; intros obj Hne; [contradiction|].
  cbn [app descend]. destruct (get_prop obj name) as [obj'|f]; [|reflexivity].
  destruct (truthy obj') eqn:Ht.
  - destruct p as [|name' p].
    + cbn [app descend]. now rewrite Ht.
    + now apply IH.
  - now rewrite Ht.
Qed.

(** X15: looking up the key [a.b] is looking up [a] and, when that gives
    a truthy value, looking up [b] in it; a falsy value met on the way is
    what the whole lookup returns. *)
Theorem getDescendantProp_dotted (obj : Value) (a b : string) :
  getDescendantProp obj (a ++ "." ++ b) =
    match getDescendantProp obj a with
    | Ok v => if truthy v then getDescendantProp v b else Ok v
    | Throw f => Throw f
    end.
Proof.
  unfold getDescendantProp. rewrite split_dot_dotted.
  apply descend_app, split_dot_nonempty.
Qed.

(** X16: [getDescendantProp] returns the value that the dotted key
    addresses through the members of nested objects; and where the key
    leaves the tree, at a falsy entry or at a nested object that has no
    member of the next name, a name that objects do not inherit, it
    returns a falsy value. *)
Theorem getDescendantProp_tree (tree : Value) (desc : string) :
  (forall v : Value,
     tree_get tree (split_dot desc) = Some v -> getDescendantProp tree desc = Ok v)
  /\ (misses tree (split_dot desc) = true ->
      exists v : Value, getDescendantProp tree desc = Ok v /\ truthy v = false).
Proof.
  unfold getDescendantProp. split.
  - intros v Hget. apply descend_addressed; [apply split_dot_nonempty | exact Hget].
  - apply descend_misses.
Qed.

Lemma getDescendantProp_tree_witness :
  getDescendantProp en_us_terms "user.name" = Ok (VString "Name")
  /\ exists v, getDescendantProp en_us_terms "user.age" = Ok v /\ truthy v = false.
Proof.
  split.
  - exact (proj1 (getDescendantProp_tree en_us_terms "user.name")
             (VString "Name") eq_refl).
  - exact (proj2 (getDescendantProp_tree en_us_terms "user.age") eq_refl).
Defined.

(** *** Every state the service can reach *)

Lemma act_languages_defined (w : World) (a : Action) :
  (defaultLanguage w <> None -> selectedLanguage w <> None) ->
  defaultLanguage (act w a) <> None -> selectedLanguage (act w a) <> None.
Proof.
  intros Hinv. destruct a as [base | language callback | language callback
                              | term language args | t]; cbn [act].
  - exact Hinv.
  - discriminate.
  - destruct (setLanguage_cases language callback w)
      as [(_ & _ & _ & ->) | [(_ & _ & _ & ->) | (_ & ->)]];
      [discriminate | discriminate |].
    destruct (schedule_state callback w) as (_ & -> & -> & _). exact Hinv.
  - destruct (getTerm_only_logs term language args w) as (extra & -> & _).
    exact Hinv.
  - destruct (step_languages t w) as [-> ->]. exact Hinv.
Qed.

Lemma fold_act_languages_defined (actions : list Action) (w : World) :
  (defaultLanguage w <> None -> selectedLanguage w <> None) ->
  defaultLanguage (fold_left act actions w) <> None ->
  selectedLanguage (fold_left act actions w) <> None.
Proof.
  revert w. induction actions as [|a actions IH]; intros w Hinv; [exact Hinv|].
  cbn [fold_left]. apply IH. now apply act_languages_defined.
Qed.

(** X17: in every state the service reaches from its creation, by calls
    of the host, answers of the reader and timers in any order, a default
    language is never set without a selected language. *)
Theorem history_selected_defined (actions : list Action) (d : string) :
  defaultLanguage (history actions) = Some d ->
  exists s : string, selectedLanguage (history actions) = Some s.
Proof.
  intros Hd.
  assert (H : selectedLanguage (history actions) <> None).
  { apply fold_act_languages_defined; [intros H; now destruct H|].
    fold (history actions). congruence. }
  destruct (selectedLanguage (history actions)) as [s|]; [eauto | contradiction].
Qed.

Lemma history_selected_defined_witness :
  exists s : string,
    selectedLanguage
      (history [SetLanguage "fr-fr" None; SetDefaultLanguage "en-us" None;
                Loop (ReaderFails 0); SetLanguage "de-de" None]) = Some s.
Proof.
  exact (history_selected_defined
           [SetLanguage "fr-fr" None; SetDefaultLanguage "en-us" None;
            Loop (ReaderFails 0); SetLanguage "de-de" None] "en-us" eq_refl).
Defined.

(** X18: in every state the service reaches, [setLanguage(language)]
    removes from [resources] at most the tree of the language selected
    before the call; the tree of the default language and the tree of
    [language] itself stay. *)
Theorem setLanguage_keeps_trees
    (actions : list Action) (language : string) (callback : option Callback)
    (l : string) :
  let w := history actions in
  selectedLanguage w <> Some l \/ defaultLanguage w = Some l \/ l = language ->
  resources (setLanguage language callback w) !! l = resources w !! l.
Proof.
  intros w Hl.
  assert (Hinv : defaultLanguage w <> None -> selectedLanguage w <> None).
  { apply fold_act_languages_defined. intros H. now destruct H. }
  destruct (setLanguage_cases language callback w)
    as [(Hd & Hs & Hds & ->) | [(_ & _ & _ & ->) | (_ & ->)]].
  - cbn. apply lookup_delete_ne.
    destruct (selectedLanguage w) as [s|] eqn:Hsel.
    + cbn. intros ->. destruct Hl as [H | [H | H]]; congruence.
    + destruct (defaultLanguage w); [now destruct Hinv | contradiction].
  - reflexivity.
  - now destruct (schedule_state callback w) as (-> & _).
Qed.

Lemma setLanguage_keeps_trees_witness :
  let w := history [SetDefaultLanguage "en-us" None;
                    Loop (ReaderSucceeds 0 en_us_terms);
                    SetLanguage "fr-fr" None;
                    Loop (ReaderSucceeds 0 fr_fr_terms)] in
  resources (setLanguage "de-de" None w) !! "en-us" = resources w !! "en-us".
Proof.
  apply (setLanguage_keeps_trees
           [SetDefaultLanguage "en-us" None; Loop (ReaderSucceeds 0 en_us_terms);
            SetLanguage "fr-fr" None; Loop (ReaderSucceeds 0 fr_fr_terms)]
           "de-de" None "en-us").
  right. left. vm_compute. reflexivity.
Defined.

(** X19: [setDefaultLanguage(A)], [setLanguage(B)], [setLanguage(C)] with
    three different languages, whose codes have a hyphen, each file
    arriving before the next call:
    in the end [resources] holds the trees of [A] and [C] and nothing
    else, [A] is the default and [C] the selected language. *)
Theorem three_languages
    (base A B C : string) (cbA cbB cbC : option Callback) (tA tB tC : Value) :
  hyphenated A = true -> hyphenated B = true -> hyphenated C = true ->
  A <> B -> A <> C -> B <> C ->
  let w := session base (Some (A, cbA, Loaded tA))
             [(B, cbB, Loaded tB); (C, cbC, Loaded tC)] in
  resources w = <[C := tC]> (<[A := tA]> ∅)
  /\ getDefaultLanguage w = Some A
  /\ getSelectedLanguage w = Some C
  /\ inflight w = [].
Proof.
  intros _ _ _ HAB HAC HBC w. subst w. unfold session. cbn [fold_left].
  set (w0 := set_basePath base init).
  set (w1 := settled_setDefaultLanguage w0 (A, cbA, Loaded tA)).
  assert (H1 : resources w1 = <[A := tA]> ∅
               /\ defaultLanguage w1 = Some A /\ selectedLanguage w1 = Some A
               /\ inflight w1 = []).
  { exact (settle_one (Loaded tA) (setDefaultLanguage A cbA w0)
             {| req_file := resource_file base A; req_language := A;
                req_callback := cbA |} eq_refl). }
  clearbody w1. destruct H1 as (Hr1 & Hd1 & Hs1 & Hq1).
  set (w2 := settled_setLanguage w1 (B, cbB, Loaded tB)).
  assert (H2 : resources w2 = <[B := tB]> (<[A := tA]> ∅)
               /\ defaultLanguage w2 = Some A /\ selectedLanguage w2 = Some B
               /\ inflight w2 = []).
  { subst w2. unfold settled_setLanguage.
    destruct (setLanguage_cases B cbB w1)
      as [(_ & _ & Hds & _) | [(_ & _ & _ & Heq) | ([H|H] & _)]];
      [congruence | | congruence | congruence].
    rewrite Heq.
    destruct (settle_one (Loaded tB)
                (loadResources B cbB (set_selectedLanguage (Some B) w1))
                {| req_file := resource_file (basePath w1) B; req_language := B;
                   req_callback := cbB |}) as (Hr & Hd & Hs & Hq).
    { unfold loadResources. cbn. now rewrite Hq1. }
    cbn in Hr, Hd, Hs. rewrite Hr, Hd, Hs, Hr1, Hd1. auto. }
  clearbody w2. destruct H2 as (Hr2 & Hd2 & Hs2 & Hq2).
  unfold settled_setLanguage, getDefaultLanguage, getSelectedLanguage.
  destruct (setLanguage_cases C cbC w2)
    as [(_ & _ & _ & Heq) | [(_ & _ & Hds & _) | ([H|H] & _)]];
    [| congruence | congruence | congruence].
  rewrite Heq.
  destruct (settle_one (Loaded tC)
              (loadResources C cbC
                 (set_selectedLanguage (Some C)
                    (set_resources
                       (delete (to_string (selectedLanguage w2)) (resources w2)) w2)))
              {| req_file := resource_file (basePath w2) C; req_language := C;
                 req_callback := cbC |}) as (Hr & Hd & Hs & Hq).
  { unfold loadResources. cbn. now rewrite Hq2. }
  cbn in Hr, Hd, Hs. rewrite Hr, Hd, Hs, Hq.
  repeat split; [| exact Hd2].
  rewrite Hs2, Hr2. cbn [to_string]. rewrite delete_insert_id; [reflexivity|].
  rewrite lookup_insert_ne by exact HAB. apply lookup_empty.
Qed.

Lemma three_languages_witness :
  let w := session "" (Some ("en-us", None, Loaded en_us_terms))
             [("fr-fr", None, Loaded fr_fr_terms); ("de-de", None, Loaded de_de_terms)] in
  resources w = <["de-de" := de_de_terms]> (<["en-us" := en_us_terms]> ∅).
Proof.
  assert (H : "en-us" <> "fr-fr" /\ "en-us" <> "de-de" /\ "fr-fr" <> "de-de")
    by (repeat split; discriminate).
  destruct H as (H1 & H2 & H3).
  exact (proj1 (three_languages "" "en-us" "fr-fr" "de-de" None None None
                  en_us_terms fr_fr_terms de_de_terms eq_refl eq_refl eq_refl
                  H1 H2 H3)).
Defined.


(** X20: after [setLanguage(language)] with a language that is neither
    the default nor the selected one, and the arrival of its file, a key
    that addresses a truthy value in the file resolves to that value, and
    nothing is written to [$log]. The language, and the one selected
    before if any, have a hyphen in their codes. *)
Theorem getTerm_after_setLanguage
    (w0 : World) (language : string) (callback : option Callback)
    (tree v : Value) (term : string) :
  inflight w0 = [] ->
  defaultLanguage w0 <> Some language ->
  selectedLanguage w0 <> Some language ->
  hyphenated language = true ->
  plain_language (selectedLanguage w0) = true ->
  term <> "" ->
  tree_get tree (split_dot term) = Some v ->
  truthy v = true ->
  let w := settle (Loaded tree) (setLanguage language callback w0) in
  getSelectedLanguage w = Some language
  /\ getTerm (Some term) None [] w = (Ok v, w).
Proof.
  intros Hq Hd Hs Hhyp _ Hterm Hget Hv w.
  pose proof (hyphenated_nonempty language Hhyp) as Hlang.
  assert (Hstate : selectedLanguage w = Some language
                   /\ resources w !! language = Some tree).
  { subst w. destruct (setLanguage_cases language callback w0)
      as [(_ & _ & _ & ->) | [(_ & _ & _ & ->) | ([H|H] & _)]];
      [| | contradiction | contradiction].
    - destruct (settle_one (Loaded tree)
                  (loadResources language callback
                     (set_selectedLanguage (Some language)
                        (set_resources
                           (delete (to_string (selectedLanguage w0)) (resources w0))
                           w0)))
                  {| req_file := resource_file (basePath w0) language;
                     req_language := language; req_callback := callback |})
        as (Hr & _ & Hs' & _).
      { unfold loadResources. cbn. now rewrite Hq. }
      rewrite Hr, Hs'. cbn. split; [reflexivity | apply lookup_insert_eq].
    - destruct (settle_one (Loaded tree)
                  (loadResources language callback
                     (set_selectedLanguage (Some language) w0))
                  {| req_file := resource_file (basePath w0) language;
                     req_language := language; req_callback := callback |})
        as (Hr & _ & Hs' & _).
      { unfold loadResources. cbn. now rewrite Hq. }
      rewrite Hr, Hs'. cbn. split; [reflexivity | apply lookup_insert_eq]. }
  destruct Hstate as [Hsel Hres]. split; [exact Hsel|].
  assert (Heff : effective_language None w = Some language) by exact Hsel.
  rewrite (getTerm_resolve w term None [] language Hterm Heff Hlang).
  unfold bind. rewrite (resolve_hit w term language tree v Hres Hget Hv).
  apply apply_arguments_none.
Qed.

Lemma getTerm_after_setLanguage_witness :
  let w := settle (Loaded fr_fr_terms) (setLanguage "fr-fr" (Some 2) english_session) in
  getTerm (Some "greet") None [] w = (Ok (VString "Salut {0}"), w).
Proof.
  assert (H : "greet" <> ""
              /\ defaultLanguage english_session <> Some "fr-fr"
              /\ selectedLanguage english_session <> Some "fr-fr")
    by (repeat split; vm_compute; discriminate).
  destruct H as (Hterm & Hd & Hs).
  assert (Hget : tree_get fr_fr_terms (split_dot "greet") = Some (VString "Salut {0}"))
    by (vm_compute; reflexivity).
  exact (proj2 (getTerm_after_setLanguage english_session "fr-fr" (Some 2)
                  fr_fr_terms (VString "Salut {0}") "greet"
                  eq_refl Hd Hs eq_refl eq_refl Hterm Hget eq_refl)).
Defined.

End Translate.
